(** * LUKSO mini-app template: connection store, profile card and donation form

    A shallow embedding of the three React components of the template:

    - [Grid]: the [GridProvider] connection store and its [useGrid] accessor;
    - [LuksoProfile]: the profile card and its metadata fetch;
    - [Donate]: the donation form with its amount validator and transfer
      action.

    React state is threaded explicitly.  JavaScript numbers are IEEE 754
    binary64 values, taken from the Standard Library's [SpecFloat]. *)

From Stdlib Require Import ZArith String Ascii List Bool Lia.
From Stdlib Require Import Floats.SpecFloat DecimalString.
Import ListNotations.

Local Open Scope string_scope.
Local Open Scope Z_scope.

(** ** JavaScript values used by the components *)

Module JS.

(** A thrown [Error], with its message. *)
Inductive Exn := Error (message : string).

(** How an evaluation (or a settled promise) ends. *)
Inductive Completion (A : Type) :=
| Normal (a : A)
| Throw (e : Exn).
Arguments Normal {A} a.
Arguments Throw {A} e.

(** [number]: binary64. *)
Definition number := spec_float.
Definition prec := 53.
Definition emax := 1024.

Definition NaN : number := S754_nan.

(** An integer literal. *)
Definition of_Z (z : Z) : number := binary_normalize prec emax z 0 false.

(** A decimal literal [m / 10^k], for [m] and [10^k] below [2^53]. *)
Definition of_decimal (m : Z) (k : Z) : number :=
  SFdiv prec emax (of_Z m) (of_Z (10 ^ k)).

(** [x < y] and [x > y]; both are false when either side is NaN. *)
Definition lt (x y : number) : bool := SFltb x y.
Definition gt (x y : number) : bool := SFltb y x.

(** ToBoolean on a number: [+0], [-0] and NaN are falsy. *)
Definition truthy (x : number) : bool :=
  match x with
  | S754_zero _ | S754_nan => false
  | S754_infinity _ | S754_finite _ _ _ => true
  end.

(** ToBoolean on a string: only the empty string is falsy. *)
Definition truthy_string (s : string) : bool :=
  match s with
  | EmptyString => false
  | String _ _ => true
  end.

(** The integer a number denotes, when it denotes one. *)
Definition to_integer (x : number) : option Z :=
  match x with
  | S754_zero _ => Some 0
  | S754_finite s m e =>
      if 0 <=? e then Some (cond_Zopp s (Zpos m * 2 ^ e))
      else if (Zpos m mod 2 ^ (- e)) =? 0
           then Some (cond_Zopp s (Zpos m / 2 ^ (- e)))
           else None
  | S754_infinity _ | S754_nan => None
  end.

Section ToString.

(** Number::toString on the values that are not safe integers (shortest
    round-trip digits, exponent form); not needed by any constant of the
    components. *)
Variable toString_other : number -> string.

(** Number::toString.  A safe integer prints as its decimal digits. *)
Definition toString (x : number) : string :=
  match x with
  | S754_nan => "NaN"
  | S754_zero _ => "0"
  | S754_infinity s => if s then "-Infinity" else "Infinity"
  | S754_finite _ _ _ =>
      match to_integer x with
      | Some z =>
          if Z.abs z <? 2 ^ 53
          then NilZero.string_of_int (Z.to_int z)
          else toString_other x
      | None => toString_other x
      end
  end.

End ToString.

(** String.prototype.startsWith. *)
Fixpoint startsWith (pat s : string) : bool :=
  match pat, s with
  | EmptyString, _ => true
  | String _ _, EmptyString => false
  | String a pat', String b s' => Ascii.eqb a b && startsWith pat' s'
  end.

(** The suffix of [s] after its first [n] characters. *)
Fixpoint drop (n : nat) (s : string) : string :=
  match n, s with
  | O, _ => s
  | S _, EmptyString => EmptyString
  | S n', String _ s' => drop n' s'
  end.

(** String.prototype.replace with a string pattern and a replacement that
    holds no [$]: the first occurrence of [pat] in [s] is replaced. *)
Fixpoint replace (pat rep s : string) : string :=
  if startsWith pat s then rep ++ drop (String.length pat) s
  else match s with
       | EmptyString => EmptyString
       | String c s' => String c (replace pat rep s')
       end.

(** *** Number.parseFloat

    The builtin, following ECMAScript: leading white space is skipped, the
    longest prefix that is a StrDecimalLiteral is read, and NaN is returned
    when there is none.  Strings are byte strings, so only the ASCII white
    space characters are recognised. *)

Definition is_white (c : ascii) : bool :=
  let n := Z.of_nat (nat_of_ascii c) in
  ((9 <=? n) && (n <=? 13)) || (n =? 32).

Fixpoint trimStart (s : string) : string :=
  match s with
  | String c s' => if is_white c then trimStart s' else s
  | EmptyString => s
  end.

Definition digit_of (c : ascii) : option Z :=
  let n := Z.of_nat (nat_of_ascii c) in
  if (48 <=? n) && (n <=? 57) then Some (n - 48) else None.

(** The longest run of decimal digits at the head of [s]: the number read
    on top of [acc], how many digits were read on top of [n], the rest. *)
Fixpoint digits (acc n : Z) (s : string) : Z * Z * string :=
  match s with
  | String c s' =>
      match digit_of c with
      | Some d => digits (10 * acc + d) (n + 1) s'
      | None => (acc, n, s)
      end
  | EmptyString => (acc, n, s)
  end.

(** The binary64 nearest to [m * 10^e] (ties to even), with sign [neg]. *)
Definition round_decimal (neg : bool) (m e : Z) : number :=
  if m =? 0 then S754_zero neg
  else if 0 <=? e then
    let x := binary_normalize prec emax (m * 10 ^ e) 0 false in
    if neg then SFopp x else x
  else
    let '(q, e', l) := SFdiv_core_binary prec emax m 0 (10 ^ (- e)) 0 in
    binary_round_aux prec emax neg q e' l.

(** An optional ExponentPart at the head of [s]. *)
Definition exponentPart (s : string) : Z :=
  match s with
  | String c s' =>
      if Ascii.eqb c "e" || Ascii.eqb c "E" then
        let '(neg, s'') :=
          match s' with
          | String "-" r => (true, r)
          | String "+" r => (false, r)
          | _ => (false, s')
          end in
        let '(x, n, _) := digits 0 0 s'' in
        if n =? 0 then 0 else if neg then - x else x
      else 0
  | EmptyString => 0
  end.

Definition unsignedDecimal (neg : bool) (s : string) : number :=
  if startsWith "Infinity" s then S754_infinity neg
  else
    let '(m1, n1, r1) := digits 0 0 s in
    let '(m2, n2, r2) :=
      match r1 with
      | String "." r => digits m1 0 r
      | _ => (m1, 0, r1)
      end in
    if (n1 =? 0) && (n2 =? 0) then NaN
    else round_decimal neg m2 (exponentPart r2 - n2).

Definition parseFloat (input : string) : number :=
  match trimStart input with
  | String "-" r => unsignedDecimal true r
  | String "+" r => unsignedDecimal false r
  | s => unsignedDecimal false s
  end.

(** String.prototype.includes. *)
Fixpoint includes (pat s : string) : bool :=
  startsWith pat s
  || match s with
     | EmptyString => false
     | String _ s' => includes pat s'
     end.

(** [x <= y]; false when either side is NaN. *)
Definition le (x y : number) : bool := SFleb x y.

End JS.

(** ** The donation form ([Donate]) *)

Module Donate.
Import JS.

Definition Address := string.

Definition minAmount : number := of_Z 1.
Definition maxAmount : number := of_Z 1000.

(** The component's own state: [useState(minAmount)] and [useState('')]. *)
Record State := mkState { amount : number; error : string }.

Definition initial : State := {| amount := minAmount; error := "" |}.

Definition setError (e : string) (st : State) : State :=
  {| amount := amount st; error := e |}.

Definition setAmount (v : number) (st : State) : State :=
  {| amount := v; error := error st |}.

(** What the component reads from the wallet context and its props. *)
Record Client := WalletClient { client_id : nat }.

Record Scope := mkScope {
  client : option Client;
  accounts : list Address;
  contextAccounts : list Address;
  walletConnected : bool;
  selectedAddress : option Address
}.

(** [selectedAddress || contextAccounts[0]]; [None] is [undefined]. *)
Definition recipientAddress (sc : Scope) : option Address :=
  match selectedAddress sc with
  | Some a => if truthy_string a then Some a else nth_error (contextAccounts sc) 0
  | None => nth_error (contextAccounts sc) 0
  end.

(** The argument of [client.sendTransaction]. *)
Record TxRequest := mkTx {
  account : option Address;
  to : option Address;
  value : Z
}.

Section Environment.

(** Builtins and library calls the component makes. *)
Variable toString_other : number -> string.
Variable parseFloat : string -> number.
Variable parseUnits : string -> Z -> Completion Z.
Variable sendTransaction : TxRequest -> Completion string.

Definition validateAmount (value : number) (st : State) : State :=
  let st :=
    if lt value minAmount then
      setError ("Amount must be at least "
                  ++ toString toString_other minAmount ++ " LYX.") st
    else if gt value maxAmount then
      setError ("Amount cannot exceed "
                  ++ toString toString_other maxAmount ++ " LYX.") st
    else
      setError "" st in
  setAmount value st.

(** The effect on [[amount, validateAmount]]. *)
Definition revalidate (st : State) : State := validateAmount (amount st) st.

Definition handleOnInput (e_target_value : string) (st : State) : State :=
  let value := parseFloat e_target_value in
  validateAmount value st.

(** [sendToken]: how the call ends, and the requests that reached
    [client.sendTransaction], in order. *)
Definition sendToken (sc : Scope) (st : State)
  : Completion unit * list TxRequest :=
  match client sc with
  | None => (Normal tt, [])
  | Some _ =>
      if negb (walletConnected sc) || negb (truthy (amount st))
      then (Normal tt, [])
      else
        match parseUnits (toString toString_other (amount st)) 18 with
        | Throw e => (Throw e, [])
        | Normal v =>
            let tx := {| account := nth_error (accounts sc) 0;
                         to := recipientAddress sc;
                         value := v |} in
            match sendTransaction tx with
            | Throw e => (Throw e, [tx])
            | Normal _ => (Normal tt, [tx])
            end
        end
  end.

End Environment.

(** One environment, for concrete runs of the form: whole-number amounts
    only, and a bridge that accepts every request. *)
Module Sample.

Definition toString_other (_ : number) : string := "".

(** Stands for viem's [parseUnits] on strings of decimal digits; every
    other string is refused. *)
Definition parseUnits (value : string) (decimals : Z) : Completion Z :=
  let '(n, k, rest) := digits 0 0 value in
  match rest with
  | EmptyString =>
      if k =? 0 then Throw (Error "InvalidDecimalNumberError")
      else Normal (n * 10 ^ decimals)
  | String _ _ => Throw (Error "InvalidDecimalNumberError")
  end.

Definition sendTransaction (_ : TxRequest) : Completion string :=
  Normal "0x00".

(** A connected scope. *)
Definition connected : Scope :=
  {| client := Some (WalletClient 0);
     accounts := ["0x1111"];
     contextAccounts := ["0x2222"];
     walletConnected := true;
     selectedAddress := None |}.

End Sample.

End Donate.

(** ** The profile card ([LuksoProfile]) *)

Module LuksoProfile.
Import JS.

Definition IPFS_GATEWAY : string := "https://api.universalprofile.cloud/ipfs/".
Definition RPC_ENDPOINT : string := "https://4201.rpc.thirdweb.com".

(** The component's state. [None] stands for [undefined]. *)
Record State := mkState {
  profileImgUrl : string;
  fullName : option string;
  profileBackground : string
}.

Definition initial : State :=
  {| profileImgUrl := "https://tools-web-components.pages.dev/images/sample-avatar.jpg";
     fullName := Some "";
     profileBackground := "" |}.

Definition setProfileImgUrl (u : string) (st : State) : State :=
  {| profileImgUrl := u; fullName := fullName st;
     profileBackground := profileBackground st |}.

Definition setFullName (n : option string) (st : State) : State :=
  {| profileImgUrl := profileImgUrl st; fullName := n;
     profileBackground := profileBackground st |}.

Definition setProfileBackground (u : string) (st : State) : State :=
  {| profileImgUrl := profileImgUrl st; fullName := fullName st;
     profileBackground := u |}.

(** An image entry of the profile document; only [url] is read. *)
Record Image := mkImage { url : option string }.

(** The [LSP3Profile] object of the document. *)
Record LSP3Profile := mkProfile {
  name : option string;
  profileImage : option (list Image);
  backgroundImage : option (list Image)
}.

(** [fetchedData.value]. *)
Inductive DecodedValue :=
| Falsy                                   (* null, undefined, '', 0 *)
| NotAnObject                             (* a string, a number, ... *)
| Obj (lsp3 : option (option LSP3Profile)).
    (* [None]: no 'LSP3Profile' key; [Some None]: the key holds
       null or undefined *)

(** [fetchedData]: [None] is null or undefined. *)
Definition FetchedData := option DecodedValue.

(** [images?.[0]?.url], when truthy. *)
Definition first_url (images : option (list Image)) : option string :=
  match images with
  | Some (img :: _) =>
      match url img with
      | Some u => if truthy_string u then Some u else None
      | None => None
      end
  | _ => None
  end.

(** The body of the [try] block once [fetchData] has settled with
    [fetched]; [Throw] is the TypeError of reading a property of null. *)
Definition expose (fetched : FetchedData) (st : State) : Completion State :=
  match fetched with
  | Some (Obj (Some lsp3)) =>
      match lsp3 with
      | None => Throw (Error "Cannot read properties of undefined")
      | Some p =>
          let st := setFullName (name p) st in
          let st :=
            match first_url (profileImage p) with
            | Some u => setProfileImgUrl (replace "ipfs://" IPFS_GATEWAY u) st
            | None => st
            end in
          let st :=
            match first_url (backgroundImage p) with
            | Some u => setProfileBackground (replace "ipfs://" IPFS_GATEWAY u) st
            | None => st
            end in
          Normal st
      end
  | _ => Normal st
  end.

(** [fetchProfileImage]: the state it leaves and what it logged with
    [console.error]. *)
Definition fetchProfileImage (address : string)
    (fetchData : Completion FetchedData) (st : State) : State * list Exn :=
  if negb (truthy_string address) then (st, [])
  else
    match fetchData with
    | Throw e => (st, [e])
    | Normal fetched =>
        match expose fetched st with
        | Normal st' => (st', [])
        | Throw e => (st, [e])
        end
    end.

End LuksoProfile.

(** ** The connection store ([GridProvider]) and its accessor ([useGrid]) *)

Module Grid.
Import JS.

Definition Address := string.

(** The injected provider and the wallet client built on it. *)
Inductive Provider := UPProvider.
Inductive Client := WalletClient (transport : Provider).

Definition createClientUPProvider (_ : unit) : Provider := UPProvider.
Definition createWalletClient (transport : Provider) : Client :=
  WalletClient transport.

(** The six [useState] cells of [GridProvider]. *)
Record GridState := mkGridState {
  chainId : Z;
  accounts : list Address;
  contextAccounts : list Address;
  walletConnected : bool;
  selectedAddress : option Address;
  isSearching : bool
}.

Definition initialState : GridState :=
  {| chainId := 0; accounts := []; contextAccounts := [];
     walletConnected := false; selectedAddress := None;
     isSearching := false |}.

(** A call of one of the six setters. *)
Inductive Write :=
| SetChainId (n : Z)
| SetAccounts (l : list Address)
| SetContextAccounts (l : list Address)
| SetWalletConnected (b : bool)
| SetSelectedAddress (a : option Address)
| SetIsSearching (b : bool).

Definition apply_write (st : GridState) (w : Write) : GridState :=
  match w with
  | SetChainId n =>
      {| chainId := n; accounts := accounts st;
         contextAccounts := contextAccounts st;
         walletConnected := walletConnected st;
         selectedAddress := selectedAddress st;
         isSearching := isSearching st |}
  | SetAccounts l =>
      {| chainId := chainId st; accounts := l;
         contextAccounts := contextAccounts st;
         walletConnected := walletConnected st;
         selectedAddress := selectedAddress st;
         isSearching := isSearching st |}
  | SetContextAccounts l =>
      {| chainId := chainId st; accounts := accounts st;
         contextAccounts := l;
         walletConnected := walletConnected st;
         selectedAddress := selectedAddress st;
         isSearching := isSearching st |}
  | SetWalletConnected b =>
      {| chainId := chainId st; accounts := accounts st;
         contextAccounts := contextAccounts st;
         walletConnected := b;
         selectedAddress := selectedAddress st;
         isSearching := isSearching st |}
  | SetSelectedAddress a =>
      {| chainId := chainId st; accounts := accounts st;
         contextAccounts := contextAccounts st;
         walletConnected := walletConnected st;
         selectedAddress := a;
         isSearching := isSearching st |}
  | SetIsSearching b =>
      {| chainId := chainId st; accounts := accounts st;
         contextAccounts := contextAccounts st;
         walletConnected := walletConnected st;
         selectedAddress := selectedAddress st;
         isSearching := b |}
  end.

(** [l.length > 0]. *)
Definition nonEmpty (l : list Address) : bool :=
  (0 <? Z.of_nat (List.length l)).

(** *** The accessor *)

(** The value [GridProvider] hands to [GridContext.Provider]. *)
Record GridProviderContext := mkContext {
  ctx_provider : option Provider;
  ctx_client : option Client;
  ctx_state : GridState
}.

(** [useContext]: the value of the nearest enclosing provider of the
    context (innermost first), or the context's default. *)
Definition useContext {V : Type} (default : V) (enclosing : list V) : V :=
  match enclosing with
  | [] => default
  | v :: _ => v
  end.

(** [createContext<GridProviderContext | undefined>(undefined)]. *)
Definition GridContext_default : option GridProviderContext := None.

Definition useGrid (enclosing : list (option GridProviderContext))
  : Completion GridProviderContext :=
  let context := useContext GridContext_default enclosing in
  match context with
  | None => Throw (Error "useGrid must be used within a GridProvider")
  | Some c => Normal c
  end.

(** *** One run of the effect

    Each run of the [useEffect] callback owns a [mounted] flag, sees the
    [accounts] and [contextAccounts] of the render that scheduled it,
    starts [init] and, when there is a provider, registers the three
    listeners. *)

Inductive InitPc :=
| AwaitChainId       (* suspended at [await client.getChainId()] *)
| AwaitAddresses     (* suspended at [await client.getAddresses()] *)
| InitReturned.

Record Effect := mkEffect {
  mounted : bool;
  seen_accounts : list Address;
  seen_contextAccounts : list Address;
  pc : InitPc;
  listening : bool
}.

Definition isSome {A : Type} (o : option A) : bool :=
  match o with Some _ => true | None => false end.

(** [init] up to its first suspension. *)
Definition init_start (client : option Client) (provider : option Provider)
  : InitPc :=
  if negb (isSome client) || negb (isSome provider) then InitReturned
  else AwaitChainId.

(** [init] resumed when [getChainId] settles: the effect run, the setter
    calls and the [console.error] calls. *)
Definition init_chainId (r : Completion Z) (e : Effect)
  : Effect * list Write * list Exn :=
  let returned :=
    {| mounted := mounted e; seen_accounts := seen_accounts e;
       seen_contextAccounts := seen_contextAccounts e;
       pc := InitReturned; listening := listening e |} in
  match r with
  | Throw err => (returned, [], [err])
  | Normal _chainId =>
      if negb (mounted e) then (returned, [], [])
      else
        ({| mounted := mounted e; seen_accounts := seen_accounts e;
            seen_contextAccounts := seen_contextAccounts e;
            pc := AwaitAddresses; listening := listening e |},
         [SetChainId _chainId], [])
  end.

(** [init] resumed when [getAddresses] settles; [snapshot] is what
    [provider.contextAccounts] holds at that moment. *)
Definition init_addresses (r : Completion (list Address))
    (snapshot : list Address) (e : Effect)
  : Effect * list Write * list Exn :=
  let returned :=
    {| mounted := mounted e; seen_accounts := seen_accounts e;
       seen_contextAccounts := seen_contextAccounts e;
       pc := InitReturned; listening := listening e |} in
  match r with
  | Throw err => (returned, [], [err])
  | Normal _accounts =>
      if negb (mounted e) then (returned, [], [])
      else
        let w1 := [SetAccounts _accounts] in
        let _contextAccounts := snapshot in
        if negb (mounted e) then (returned, w1, [])
        else
          (returned,
           (w1 ++ [SetContextAccounts _contextAccounts;
                   SetWalletConnected
                     (nonEmpty _accounts && nonEmpty _contextAccounts)])%list,
           [])
  end.

(** The three listeners, closed over the values the effect run saw. *)
Definition accountsChanged (e : Effect) (_accounts : list Address)
  : list Write :=
  [SetAccounts _accounts;
   SetWalletConnected
     (nonEmpty _accounts && nonEmpty (seen_contextAccounts e))].

Definition contextAccountsChanged (e : Effect) (_accounts : list Address)
  : list Write :=
  [SetContextAccounts _accounts;
   SetWalletConnected
     (nonEmpty (seen_accounts e) && nonEmpty _accounts)].

Definition chainChanged (e : Effect) (_chainId : Z) : list Write :=
  [SetChainId _chainId].

(** The function the effect returns, when it returns one. *)
Definition cleanup (e : Effect) : Effect :=
  {| mounted := false; seen_accounts := seen_accounts e;
     seen_contextAccounts := seen_contextAccounts e;
     pc := pc e; listening := false |}.

(** *** The mounted component *)

Record Store := mkStore {
  provider : option Provider;
  client : option Client;
  hooks : GridState;
  effects : list Effect;         (* the runs of the effect, latest first *)
  deps : Z * Z;                  (* the lengths the latest run depends on *)
  alive : bool;                  (* the component is mounted *)
  writes : list Write;           (* every setter call, latest first *)
  console : list Exn             (* every [console.error], latest first *)
}.

Definition lengths (st : GridState) : Z * Z :=
  (Z.of_nat (List.length (accounts st)),
   Z.of_nat (List.length (contextAccounts st))).

(** The effect callback, run after a render whose state is [st]. *)
Definition run_effect (client : option Client) (provider : option Provider)
    (st : GridState) : Effect :=
  {| mounted := true;
     seen_accounts := accounts st;
     seen_contextAccounts := contextAccounts st;
     pc := init_start client provider;
     listening := isSome provider |}.

(** The first render and the first run of the effect;
    [window] tells whether [typeof window !== "undefined"]. *)
Definition mount (window : bool) : Store :=
  let provider := if window then Some (createClientUPProvider tt) else None in
  let client :=
    if window && isSome provider
    then option_map createWalletClient provider
    else None in
  {| provider := provider; client := client;
     hooks := initialState;
     effects := [run_effect client provider initialState];
     deps := lengths initialState;
     alive := true; writes := []; console := [] |}.

(** What the provider bridge can do to the component. *)
Inductive ProviderEvent :=
| AccountsChanged (l : list Address)
| ContextAccountsChanged (l : list Address)
| ChainChanged (n : Z).

Inductive BridgeEvent :=
| ChainIdSettled (i : nat) (r : Completion Z)
| AddressesSettled (i : nat) (r : Completion (list Address))
    (snapshot : list Address)
| Emit (ev : ProviderEvent).

Inductive Label :=
| Bridge (b : BridgeEvent)
| Commit                          (* React re-renders and flushes effects *)
| Unmount
| CallSetSelectedAddress (a : option Address)
| CallSetIsSearching (b : bool).

Definition handler (ev : ProviderEvent) (e : Effect) : list Write :=
  if listening e then
    match ev with
    | AccountsChanged l => accountsChanged e l
    | ContextAccountsChanged l => contextAccountsChanged e l
    | ChainChanged n => chainChanged e n
    end
  else [].

(** The listeners are called in registration order: oldest run first. *)
Definition emit (ev : ProviderEvent) (es : list Effect) : list Write :=
  flat_map (handler ev) (rev es).

(** Resume the [i]-th run (latest first) with [k], when [ready]. *)
Fixpoint resume (i : nat) (ready : Effect -> bool)
    (k : Effect -> Effect * list Write * list Exn) (es : list Effect)
  : list Effect * list Write * list Exn :=
  match es, i with
  | [], _ => ([], [], [])
  | e :: es', O =>
      if ready e then let '(e', ws, errs) := k e in (e' :: es', ws, errs)
      else (es, [], [])
  | e :: es', S i' =>
      let '(es'', ws, errs) := resume i' ready k es' in (e :: es'', ws, errs)
  end.

Definition at_chainId (e : Effect) : bool :=
  match pc e with AwaitChainId => true | _ => false end.

Definition at_addresses (e : Effect) : bool :=
  match pc e with AwaitAddresses => true | _ => false end.

(** Perform setter calls, in order. *)
Definition perform (ws : list Write) (errs : list Exn) (es : list Effect)
    (s : Store) : Store :=
  {| provider := provider s; client := client s;
     hooks := fold_left apply_write ws (hooks s);
     effects := es; deps := deps s; alive := alive s;
     writes := (rev ws ++ writes s)%list;
     console := (rev errs ++ console s)%list |}.

Definition bridge_step (b : BridgeEvent) (s : Store) : Store :=
  match b with
  | ChainIdSettled i r =>
      let '(es, ws, errs) :=
        resume i at_chainId (init_chainId r) (effects s) in
      perform ws errs es s
  | AddressesSettled i r snapshot =>
      let '(es, ws, errs) :=
        resume i at_addresses (init_addresses r snapshot) (effects s) in
      perform ws errs es s
  | Emit ev => perform (emit ev (effects s)) [] (effects s) s
  end.

(** The cleanup of the latest run, when the effect returned one. *)
Definition run_cleanup (s : Store) : list Effect :=
  match effects s with
  | e :: es => if isSome (provider s) then cleanup e :: es else e :: es
  | [] => []
  end.

Definition deps_changed (s : Store) : bool :=
  negb ((fst (deps s) =? fst (lengths (hooks s)))
        && (snd (deps s) =? snd (lengths (hooks s)))).

Definition step (l : Label) (s : Store) : Store :=
  match l with
  | Bridge b => bridge_step b s
  | Commit =>
      if alive s && deps_changed s then
        {| provider := provider s; client := client s; hooks := hooks s;
           effects := run_effect (client s) (provider s) (hooks s)
                        :: run_cleanup s;
           deps := lengths (hooks s); alive := true;
           writes := writes s; console := console s |}
      else s
  | Unmount =>
      if alive s then
        {| provider := provider s; client := client s; hooks := hooks s;
           effects := run_cleanup s; deps := deps s; alive := false;
           writes := writes s; console := console s |}
      else s
  | CallSetSelectedAddress a =>
      if alive s then perform [SetSelectedAddress a] [] (effects s) s else s
  | CallSetIsSearching b =>
      if alive s then perform [SetIsSearching b] [] (effects s) s else s
  end.

Definition run (ls : list Label) (s : Store) : Store :=
  fold_left (fun s l => step l s) ls s.

(** [connected] as the two account sequences of a state determine it. *)
Definition bothNonEmpty (st : GridState) : bool :=
  nonEmpty (accounts st) && nonEmpty (contextAccounts st).

(** The fields a list of [SetChainId] calls leaves alone. *)
Definition same_but_chainId (st st' : GridState) : Prop :=
  accounts st' = accounts st
  /\ contextAccounts st' = contextAccounts st
  /\ walletConnected st' = walletConnected st
  /\ selectedAddress st' = selectedAddress st
  /\ isSearching st' = isSearching st.

(** A run of the effect that can no longer call a setter: its listeners
    are gone, and [init] has returned or will return at its next liveness
    check. *)
Definition quiet (e : Effect) : Prop :=
  listening e = false /\ (mounted e = false \/ pc e = InitReturned).

(** What holds of every store reached from [mount]: only the latest run of
    the effect may be live, and none is without a provider or after the
    unmount. *)
Definition wellFormed (s : Store) : Prop :=
  Forall quiet (tl (effects s))
  /\ (provider s = None -> Forall quiet (effects s))
  /\ (alive s = false -> Forall quiet (effects s)).

(** The state [GridProvider] starts from, with nothing logged. *)
Definition pristine (s : Store) : Prop :=
  chainId (hooks s) = 0
  /\ accounts (hooks s) = []
  /\ contextAccounts (hooks s) = []
  /\ walletConnected (hooks s) = false
  /\ console s = [].

(** The latest run of the effect saw account lists as empty or non-empty
    as the current ones. *)
Definition inSync (e : Effect) (st : GridState) : Prop :=
  nonEmpty (seen_accounts e) = nonEmpty (accounts st)
  /\ nonEmpty (seen_contextAccounts e) = nonEmpty (contextAccounts st).

(** Without a provider, every run of the effect has returned and listens to
    nothing. *)
Definition inert (s : Store) : Prop :=
  provider s = None
  /\ Forall (fun e => listening e = false /\ pc e = InitReturned) (effects s).

(** A continuation of [init] is silent when, resumed in a quiet run, it
    leaves the run quiet and calls no setter. *)
Definition silent (ready : Effect -> bool)
    (k : Effect -> Effect * list Write * list Exn) : Prop :=
  forall e, quiet e -> ready e = true ->
    quiet (fst (fst (k e))) /\ snd (fst (k e)) = [].

(** The setter calls [init] and the listeners make: the four connection
    fields. *)
Definition connectionWrite (w : Write) : bool :=
  match w with
  | SetChainId _ | SetAccounts _ | SetContextAccounts _
  | SetWalletConnected _ => true
  | SetSelectedAddress _ | SetIsSearching _ => false
  end.

(** What a continuation of [init] leaves of a run: all but [pc]. *)
Definition closure (e : Effect) : bool * list Address * list Address * bool :=
  (mounted e, seen_accounts e, seen_contextAccounts e, listening e).

(** The latest run of the effect is the one the dependency lengths were
    taken for, and it listens while the component is mounted with a
    provider. *)
Definition upToDate (s : Store) : Prop :=
  match effects s with
  | e :: _ =>
      deps s = (Z.of_nat (List.length (seen_accounts e)),
                Z.of_nat (List.length (seen_contextAccounts e)))
      /\ (alive s = true -> listening e = isSome (provider s))
  | [] => False
  end.

(** The run a settlement addresses, when it is suspended where [ready]
    says. *)
Definition pending (ready : Effect -> bool) (i : nat) (s : Store) : bool :=
  match nth_error (effects s) i with
  | Some e => ready e
  | None => false
  end.

(** The setter calls a bridge event leads to. *)
Definition bridge_writes (b : BridgeEvent) (s : Store) : list Write :=
  match b with
  | ChainIdSettled i r =>
      snd (fst (resume i at_chainId (init_chainId r) (effects s)))
  | AddressesSettled i r snapshot =>
      snd (fst (resume i at_addresses (init_addresses r snapshot) (effects s)))
  | Emit ev => emit ev (effects s)
  end.

End Grid.

(** * Properties *)

(** ** The donation form *)

Section DonateProperties.
Import JS Donate.

Variable toString_other : number -> string.
Variable parseFloat : string -> number.
Variable parseUnits : string -> Z -> Completion Z.
Variable sendTransaction : Donate.TxRequest -> Completion string.

Local Abbreviation validate := (validateAmount toString_other).
Local Abbreviation send :=
  (sendToken toString_other parseUnits sendTransaction).

(** The two bounds, as binary64 values and as text. *)
Lemma minAmount_value : minAmount = S754_finite false 4503599627370496 (-52).
Proof. vm_compute. reflexivity. Qed.

Lemma maxAmount_value : maxAmount = S754_finite false 8796093022208000 (-43).
Proof. vm_compute. reflexivity. Qed.

Lemma bounds_text :
  toString toString_other minAmount = "1"
  /\ toString toString_other maxAmount = "1000".
Proof. split; vm_compute; reflexivity. Qed.

(** A value above the maximum is not below the minimum. *)
Lemma above_max_not_below_min (v : number) :
  gt v maxAmount && lt v minAmount = false.
Proof.
  unfold gt, lt, SFltb. rewrite minAmount_value, maxAmount_value.
  destruct v as [s | s | | s m e]; try (destruct s; reflexivity);
    try reflexivity.
  destruct s; [reflexivity |].
  cbn [SFcompare].
  destruct (Z.compare_spec (-43) e) as [H | H | H];
    destruct (Z.compare_spec e (-52)) as [H' | H' | H'];
    try lia; try reflexivity;
    try (destruct (Pos.compare_cont _ _ _); reflexivity).
Qed.

Lemma validateAmount_amount (v : number) (st : State) :
  amount (validate v st) = v.
Proof. reflexivity. Qed.

Lemma validateAmount_error (v : number) (st : State) :
  error (validate v st) =
    if lt v minAmount then "Amount must be at least 1 LYX."
    else if gt v maxAmount then "Amount cannot exceed 1000 LYX."
    else "".
Proof.
  unfold validateAmount.
  destruct bounds_text as [-> ->].
  destruct (lt v minAmount); [reflexivity |].
  destruct (gt v maxAmount); reflexivity.
Qed.

Lemma validateAmount_eq (v : number) (st : State) :
  validate v st
  = {| amount := v;
       error := if lt v minAmount then "Amount must be at least 1 LYX."
                else if gt v maxAmount then "Amount cannot exceed 1000 LYX."
                else "" |}.
Proof.
  rewrite <- (validateAmount_error v st).
  unfold validateAmount, setAmount. reflexivity.
Qed.

(** C5. With the bounds 1 and 1000, the validator maps 0.5 to "Amount must
    be at least 1 LYX.", 1500 to "Amount cannot exceed 1000 LYX." and 50 to
    no error with 50 stored; in general the stored amount is the input, a
    value below the minimum gets the first message, one above the maximum
    the second (the two cases exclude each other), and any other value
    clears the error. *)
Theorem validateAmount_messages (st : State) :
  validate (of_decimal 5 1) st
    = {| amount := of_decimal 5 1; error := "Amount must be at least 1 LYX." |}
  /\ validate (of_Z 1500) st
    = {| amount := of_Z 1500; error := "Amount cannot exceed 1000 LYX." |}
  /\ validate (of_Z 50) st = {| amount := of_Z 50; error := "" |}
  /\ (forall v,
        validate v st
        = {| amount := v;
             error := if lt v minAmount then "Amount must be at least 1 LYX."
                      else if gt v maxAmount then "Amount cannot exceed 1000 LYX."
                      else "" |})
  /\ (forall v, gt v maxAmount && lt v minAmount = false).
Proof.
  split; [| split; [| split; [| split]]].
  - rewrite validateAmount_eq. vm_compute. reflexivity.
  - rewrite validateAmount_eq. vm_compute. reflexivity.
  - rewrite validateAmount_eq. vm_compute. reflexivity.
  - intros v. apply validateAmount_eq.
  - apply above_max_not_below_min.
Qed.

(** Re-running the validator on the stored amount changes nothing. *)
Lemma revalidate_stable (v : number) (st : State) :
  revalidate toString_other (validate v st) = validate v st.
Proof.
  unfold revalidate.
  rewrite validateAmount_amount, !validateAmount_eq. reflexivity.
Qed.

(** C9. When [Number.parseFloat] yields NaN for the text of the input field,
    the input handler sets no error message and stores NaN as the amount,
    and the follow-up validation of the stored amount leaves it so. *)
Theorem handleOnInput_NaN (text : string) (st : State) :
  parseFloat text = NaN ->
  handleOnInput toString_other parseFloat text st
    = {| amount := NaN; error := "" |}
  /\ revalidate toString_other
       (handleOnInput toString_other parseFloat text st)
     = {| amount := NaN; error := "" |}.
Proof.
  intros H. unfold handleOnInput, revalidate.
  rewrite H, validateAmount_amount, !validateAmount_eq. split; reflexivity.
Qed.

Lemma truthy_false (x : number) :
  truthy x = false <-> (exists s, x = S754_zero s) \/ x = NaN.
Proof.
  split.
  - destruct x; simpl; intros H; try discriminate; eauto.
  - intros [[s ->] | ->]; reflexivity.
Qed.

(** C10. Whatever the scope holds (a client and [walletConnected = true]
    included), [sendToken] returns without any call to
    [client.sendTransaction] when the amount is 0 (of either sign) or
    NaN. *)
Theorem sendToken_falsy_amount (sc : Scope) (st : State) :
  (exists s, amount st = S754_zero s) \/ amount st = NaN ->
  send sc st = (Normal tt, []).
Proof.
  intros H. apply truthy_false in H.
  unfold sendToken. rewrite H.
  destruct (client sc); [| reflexivity].
  now rewrite orb_true_r.
Qed.


End DonateProperties.

(** Witness of C9: an emptied input field. *)
Lemma handleOnInput_NaN_witness :
  JS.parseFloat "" = JS.NaN
  /\ Donate.handleOnInput Donate.Sample.toString_other JS.parseFloat ""
       Donate.initial
     = {| Donate.amount := JS.NaN; Donate.error := "" |}.
Proof.
  split; [reflexivity |].
  apply (proj1 (handleOnInput_NaN Donate.Sample.toString_other JS.parseFloat
                  "" Donate.initial eq_refl)).
Defined.

(** Witness of C10: a connected scope and the amount 0. *)
Lemma sendToken_falsy_amount_witness :
  Donate.client Donate.Sample.connected <> None
  /\ Donate.walletConnected Donate.Sample.connected = true
  /\ Donate.sendToken Donate.Sample.toString_other Donate.Sample.parseUnits
       Donate.Sample.sendTransaction Donate.Sample.connected
       {| Donate.amount := JS.of_Z 0; Donate.error := "" |}
     = (JS.Normal tt, []).
Proof.
  split; [discriminate |]. split; [reflexivity |].
  apply (sendToken_falsy_amount Donate.Sample.toString_other
           Donate.Sample.parseUnits Donate.Sample.sendTransaction).
  left. exists false. reflexivity.
Defined.



(** The three inputs of the form, typed as text. *)
Lemma handleOnInput_examples :
  let input := Donate.handleOnInput Donate.Sample.toString_other JS.parseFloat in
  Donate.error (input "0.5" Donate.initial) = "Amount must be at least 1 LYX."
  /\ Donate.error (input "1500" Donate.initial) = "Amount cannot exceed 1000 LYX."
  /\ input "50" Donate.initial
     = {| Donate.amount := JS.of_Z 50; Donate.error := "" |}.
Proof. repeat split; vm_compute; reflexivity. Qed.

(** [parseFloat] on a few texts. *)
Lemma parseFloat_examples :
  JS.parseFloat "0.5" = JS.of_decimal 5 1
  /\ JS.parseFloat " 1500 LYX" = JS.of_Z 1500
  /\ JS.parseFloat "-0" = S754_zero true
  /\ JS.parseFloat "1e3" = JS.of_Z 1000
  /\ JS.parseFloat "abc" = JS.NaN
  /\ JS.parseFloat "." = JS.NaN
  /\ JS.parseFloat "Infinity" = S754_infinity false.
Proof. repeat split; vm_compute; reflexivity. Qed.

(** ** The profile card *)

Section LuksoProfileProperties.
Import JS LuksoProfile.

Lemma startsWith_app (pat s : string) : startsWith pat (pat ++ s) = true.
Proof.
  induction pat as [| c pat IH]; simpl; [reflexivity |].
  now rewrite Ascii.eqb_refl, IH.
Qed.

Lemma drop_app (pat s : string) : drop (String.length pat) (pat ++ s) = s.
Proof. induction pat as [| c pat IH]; simpl; auto. Qed.

(** Replacing a pattern the string starts with. *)
Lemma replace_prefix (pat rep s : string) :
  replace pat rep (pat ++ s) = rep ++ s.
Proof.
  destruct (pat ++ s) eqn:E; simpl; rewrite <- E;
    now rewrite startsWith_app, drop_app.
Qed.



End LuksoProfileProperties.


(** ** The connection store *)

Section GridProperties.
Import JS Grid.

(** *** The accessor *)

(** C4. With no enclosing [GridContext.Provider], [useGrid] throws the
    error "useGrid must be used within a GridProvider": it is a function of
    the enclosing scopes, and at the empty scope its value is that throw,
    never a context value.  In any scope it throws exactly when [useContext]
    finds no context value. *)
Theorem useGrid_outside_provider :
  useGrid [] = Throw (Error "useGrid must be used within a GridProvider")
  /\ (forall c, useGrid [] <> Normal c)
  /\ (forall enclosing,
        useContext GridContext_default enclosing = None
        <-> useGrid enclosing
            = Throw (Error "useGrid must be used within a GridProvider")).
Proof.
  split; [reflexivity | split; [intros c; discriminate |]].
  intros enclosing. unfold useGrid.
  destruct (useContext GridContext_default enclosing);
    split; intros H; try reflexivity; discriminate.
Qed.

(** Inside a [GridProvider] the accessor returns the provided value. *)
Lemma useGrid_inside_provider (c : GridProviderContext)
    (outer : list (option GridProviderContext)) :
  useGrid (Some c :: outer) = Normal c.
Proof. reflexivity. Qed.

(** *** Chain changes *)

Lemma chainChanged_handlers_frame (n : Z) (es : list Effect) :
  forall st,
    same_but_chainId st
      (fold_left apply_write (flat_map (handler (ChainChanged n)) es) st).
Proof.
  induction es as [| e es IH]; intros st.
  - now repeat split.
  - simpl. unfold handler at 1. destruct (listening e); simpl.
    + destruct (IH (apply_write st (SetChainId n)))
        as (H1 & H2 & H3 & H4 & H5).
      repeat split; simpl in *; congruence.
    + apply IH.
Qed.

Lemma chainChanged_handlers_chainId (n : Z) (es : list Effect) :
  forall st,
    chainId (fold_left apply_write (flat_map (handler (ChainChanged n)) es) st)
    = if existsb listening es then n else chainId st.
Proof.
  induction es as [| e es IH]; intros st; [reflexivity |].
  simpl. unfold handler at 1. destruct (listening e); simpl.
  - rewrite IH. now destruct (existsb listening es).
  - apply IH.
Qed.

(** C6. The [chainChanged] listener calls [setChainId] and nothing else;
    whatever the store, a [chainChanged(n)] event leaves [accounts],
    [contextAccounts], [walletConnected], [selectedAddress] and
    [isSearching] as they were, and [chainId] becomes [n] when a listener
    is registered. *)
Theorem chainChanged_only_chainId (n : Z) (s : Store) :
  let s' := step (Bridge (Emit (ChainChanged n))) s in
  (forall e, chainChanged e n = [SetChainId n])
  /\ accounts (hooks s') = accounts (hooks s)
  /\ contextAccounts (hooks s') = contextAccounts (hooks s)
  /\ walletConnected (hooks s') = walletConnected (hooks s)
  /\ selectedAddress (hooks s') = selectedAddress (hooks s)
  /\ isSearching (hooks s') = isSearching (hooks s)
  /\ chainId (hooks s')
     = if existsb listening (effects s) then n else chainId (hooks s).
Proof.
  intros s'. subst s'. cbn [step bridge_step perform hooks].
  unfold emit.
  destruct (chainChanged_handlers_frame n (rev (effects s)) (hooks s))
    as (H1 & H2 & H3 & H4 & H5).
  repeat split; try assumption.
  rewrite chainChanged_handlers_chainId.
  replace (existsb listening (rev (effects s)))
    with (existsb listening (effects s)); [reflexivity |].
  generalize (effects s) as l. intros l.
  induction l as [| a l IH]; [reflexivity |].
  simpl. rewrite existsb_app, <- IH. simpl.
  rewrite orb_false_r. apply orb_comm.
Qed.


(** *** Stale listeners *)

(** A listener whose run saw lists in step with the current ones computes
    [walletConnected] from the state it leaves. *)
Lemma listeners_fresh_when_inSync (e : Effect) (st : GridState)
    (l : list Address) :
  inSync e st ->
  walletConnected (fold_left apply_write (accountsChanged e l) st)
  = bothNonEmpty (fold_left apply_write (accountsChanged e l) st)
  /\ walletConnected (fold_left apply_write (contextAccountsChanged e l) st)
     = bothNonEmpty (fold_left apply_write (contextAccountsChanged e l) st).
Proof.
  intros [Ha Hc]. unfold bothNonEmpty. simpl. now rewrite Ha, Hc.
Qed.

(** C1, on the code. From a fresh mount with a provider,
    [accountsChanged(["0xA"])] followed by
    [contextAccountsChanged(["0xB"])], both delivered before React has
    re-rendered and re-run the effect, leave both account lists non-empty
    and [walletConnected] false: the second listener used the [accounts] its
    run saw at registration.  The re-render that follows does not repair
    it. *)
Theorem stale_listener_disconnected :
  let events := [Bridge (Emit (AccountsChanged ["0xA"]));
                 Bridge (Emit (ContextAccountsChanged ["0xB"]))] in
  let s := run events (mount true) in
  accounts (hooks s) = ["0xA"]
  /\ contextAccounts (hooks s) = ["0xB"]
  /\ bothNonEmpty (hooks s) = true
  /\ walletConnected (hooks s) = false
  /\ walletConnected (hooks (step Commit s)) = false.
Proof. repeat split. Qed.

(** *** No provider *)

Lemma init_start_no_provider (c : option Client) :
  init_start c None = InitReturned.
Proof. unfold init_start. simpl. now rewrite orb_true_r. Qed.

Lemma run_effect_no_provider (c : option Client) (st : GridState) :
  quiet (run_effect c None st).
Proof.
  split; [reflexivity |]. right. apply init_start_no_provider.
Qed.

(** Resuming a run that has returned does nothing. *)
Lemma resume_returned (i : nat) (ready : Effect -> bool)
    (k : Effect -> Effect * list Write * list Exn) (es : list Effect) :
  (forall e, In e es -> ready e = false) ->
  resume i ready k es = (es, [], []).
Proof.
  revert i. induction es as [| e es IH]; intros i H; [now destruct i |].
  destruct i as [| i]; simpl.
  - now rewrite (H e (or_introl eq_refl)).
  - rewrite IH; [reflexivity |]. intros e' He'. apply H. now right.
Qed.

Lemma emit_not_listening (ev : ProviderEvent) (es : list Effect) :
  Forall (fun e => listening e = false) es -> emit ev es = [].
Proof.
  intros H. unfold emit.
  assert (H' : Forall (fun e => listening e = false) (rev es))
    by (apply Forall_forall; intros e He; apply in_rev in He;
        revert e He; now apply Forall_forall).
  induction H' as [| e l He _ IH]; [reflexivity |].
  simpl. unfold handler at 1. now rewrite He.
Qed.

Lemma inert_bridge_step (b : BridgeEvent) (s : Store) :
  inert s -> bridge_step b s = perform [] [] (effects s) s.
Proof.
  intros [_ H]. rewrite Forall_forall in H.
  destruct b as [i r | i r snap | ev]; simpl.
  - rewrite resume_returned; [reflexivity |].
    intros e He. unfold at_chainId. now rewrite (proj2 (H e He)).
  - rewrite resume_returned; [reflexivity |].
    intros e He. unfold at_addresses. now rewrite (proj2 (H e He)).
  - rewrite emit_not_listening; [reflexivity |].
    apply Forall_forall. intros e He. apply (H e He).
Qed.

Lemma inert_pristine_step (l : Label) (s : Store) :
  inert s /\ pristine s -> inert (step l s) /\ pristine (step l s).
Proof.
  intros [Hi Hp]. destruct l as [b | | | a | b]; simpl.
  - rewrite (inert_bridge_step b s Hi). now split.
  - destruct (alive s && deps_changed s); [| now split].
    destruct Hi as [Hprov Hes]. split; [| exact Hp].
    split; [exact Hprov |]. simpl. constructor.
    + rewrite Hprov. split; [reflexivity | apply init_start_no_provider].
    + unfold run_cleanup. rewrite Hprov. simpl.
      destruct (effects s); [constructor | exact Hes].
  - destruct (alive s); [| now split].
    destruct Hi as [Hprov Hes]. split; [| exact Hp].
    split; [exact Hprov |]. simpl.
    unfold run_cleanup. rewrite Hprov. simpl.
    destruct (effects s); [constructor | exact Hes].
  - destruct (alive s); now split.
  - destruct (alive s); now split.
Qed.

Lemma inert_pristine_run (ls : list Label) :
  forall s, inert s /\ pristine s -> inert (run ls s) /\ pristine (run ls s).
Proof.
  induction ls as [| l ls IH]; intros s H; [exact H |].
  apply (IH (step l s)). now apply inert_pristine_step.
Qed.

(** C3. Mounted where [window] is undefined, the store has no provider and
    no client, [init] returns at once and no listener is registered; the
    state is [chainId = 0], both account lists empty and
    [walletConnected = false], nothing is thrown or logged, and this stays so
    whatever happens afterwards. *)
Theorem no_provider_default_state (ls : list Label) :
  let s := run ls (mount false) in
  provider (mount false) = None
  /\ client (mount false) = None
  /\ map pc (effects (mount false)) = [InitReturned]
  /\ map listening (effects (mount false)) = [false]
  /\ chainId (hooks s) = 0
  /\ accounts (hooks s) = []
  /\ contextAccounts (hooks s) = []
  /\ walletConnected (hooks s) = false
  /\ console s = [].
Proof.
  intros s.
  assert (H : inert (mount false) /\ pristine (mount false)).
  { split; [split; [reflexivity |] | now repeat split].
    repeat constructor. }
  apply (inert_pristine_run ls) in H. destruct H as [_ Hp].
  repeat split; apply Hp.
Qed.

(** *** Unmounting *)

Lemma init_chainId_silent (r : Completion Z) :
  silent at_chainId (init_chainId r).
Proof.
  intros e [Hl [Hm | Hpc]] Hr.
  - unfold init_chainId. rewrite Hm.
    destruct r; simpl; (split; [split; simpl; auto | reflexivity]).
  - unfold at_chainId in Hr. rewrite Hpc in Hr. discriminate.
Qed.

Lemma init_addresses_silent (r : Completion (list Address))
    (snapshot : list Address) :
  silent at_addresses (init_addresses r snapshot).
Proof.
  intros e [Hl [Hm | Hpc]] Hr.
  - unfold init_addresses. rewrite Hm.
    destruct r; simpl; (split; [split; simpl; auto | reflexivity]).
  - unfold at_addresses in Hr. rewrite Hpc in Hr. discriminate.
Qed.

(** Resuming among quiet runs: no setter call, and the runs stay quiet. *)
Lemma resume_quiet (ready : Effect -> bool)
    (k : Effect -> Effect * list Write * list Exn) (es : list Effect) :
  silent ready k ->
  Forall quiet es ->
  forall i,
    Forall quiet (fst (fst (resume i ready k es)))
    /\ snd (fst (resume i ready k es)) = [].
Proof.
  intros Hk H. induction H as [| e es He Hes IH]; intros i.
  - destruct i; simpl; auto.
  - destruct i as [| i]; simpl.
    + destruct (ready e) eqn:Hr; [| simpl; auto].
      destruct (Hk e He Hr) as [Hq Hw].
      destruct (k e) as [[e' ws] errs]. simpl in *. auto.
    + destruct (IH i) as [Hq Hw].
      destruct (resume i ready k es) as [[es' ws] errs]. simpl in *. auto.
Qed.

(** Resuming any run keeps the older runs quiet. *)
Lemma resume_older_quiet (ready : Effect -> bool)
    (k : Effect -> Effect * list Write * list Exn) (es : list Effect) (i : nat) :
  silent ready k ->
  Forall quiet (tl es) ->
  Forall quiet (tl (fst (fst (resume i ready k es)))).
Proof.
  intros Hk H. destruct es as [| e es]; [now destruct i |].
  destruct i as [| i]; simpl in *.
  - destruct (ready e); [| exact H].
    destruct (k e) as [[e' ws] errs]. exact H.
  - destruct (resume_quiet ready k es Hk H i) as [Hq _].
    destruct (resume i ready k es) as [[es' ws] errs]. exact Hq.
Qed.

Lemma run_cleanup_quiet (s : Store) :
  wellFormed s -> Forall quiet (run_cleanup s).
Proof.
  intros (Htl & Hnone & _). unfold run_cleanup.
  destruct (effects s) as [| e es] eqn:E; [constructor |].
  destruct (provider s) eqn:P; simpl.
  - constructor; [| exact Htl]. split; simpl; auto.
  - now apply Hnone.
Qed.

Lemma wellFormed_mount (window : bool) : wellFormed (mount window).
Proof.
  destruct window; (split; [constructor | split; intros H; try discriminate]).
  constructor; [| constructor]. apply run_effect_no_provider.
Qed.

Lemma wellFormed_resume (ready : Effect -> bool)
    (k : Effect -> Effect * list Write * list Exn) (i : nat) (s : Store) :
  silent ready k ->
  wellFormed s ->
  let '(es, ws, errs) := resume i ready k (effects s) in
  wellFormed (perform ws errs es s).
Proof.
  intros Hk (Htl & Hnone & Hdead).
  pose proof (resume_older_quiet ready k (effects s) i Hk Htl) as H1.
  pose proof (fun H => proj1 (resume_quiet ready k (effects s) Hk H i)) as H2.
  destruct (resume i ready k (effects s)) as [[es ws] errs]. simpl in *.
  split; [exact H1 | split; simpl; auto].
Qed.

Lemma wellFormed_step (l : Label) (s : Store) :
  wellFormed s -> wellFormed (step l s).
Proof.
  intros H. destruct l as [[i r | i r snap | ev] | | | a | b]; simpl.
  - pose proof (wellFormed_resume _ _ i s (init_chainId_silent r) H) as H'.
    now destruct (resume i at_chainId (init_chainId r) (effects s))
      as [[es ws] errs].
  - pose proof (wellFormed_resume _ _ i s (init_addresses_silent r snap) H)
      as H'.
    now destruct (resume i at_addresses (init_addresses r snap) (effects s))
      as [[es ws] errs].
  - exact H.
  - destruct (alive s && deps_changed s); [| exact H].
    pose proof (run_cleanup_quiet s H) as Hc.
    split; [exact Hc | split; simpl; intros Hp; [| discriminate]].
    constructor; [| exact Hc]. rewrite Hp. apply run_effect_no_provider.
  - destruct (alive s); [| exact H].
    pose proof (run_cleanup_quiet s H) as Hc.
    split; simpl; [| auto].
    destruct (run_cleanup s); [constructor | now inversion Hc].
  - destruct (alive s); exact H.
  - destruct (alive s); exact H.
Qed.

Lemma wellFormed_run (ls : list Label) :
  forall s, wellFormed s -> wellFormed (run ls s).
Proof.
  induction ls as [| l ls IH]; intros s H; [exact H |].
  apply (IH (step l s)). now apply wellFormed_step.
Qed.

(** Once unmounted, every run of the effect is quiet. *)
Lemma unmounted_quiet (s : Store) :
  wellFormed s -> Forall quiet (effects (step Unmount s)).
Proof.
  intros H. simpl. destruct (alive s) eqn:A.
  - simpl. now apply run_cleanup_quiet.
  - now apply H.
Qed.

Lemma quiet_bridge_step (b : BridgeEvent) (s : Store) :
  Forall quiet (effects s) ->
  Forall quiet (effects (bridge_step b s))
  /\ writes (bridge_step b s) = writes s
  /\ hooks (bridge_step b s) = hooks s.
Proof.
  intros H. destruct b as [i r | i r snap | ev]; simpl.
  - destruct (resume_quiet _ _ _ (init_chainId_silent r) H i) as [Hq Hw].
    destruct (resume i at_chainId (init_chainId r) (effects s))
      as [[es ws] errs]. simpl in *. subst ws. auto.
  - destruct (resume_quiet _ _ _ (init_addresses_silent r snap) H i)
      as [Hq Hw].
    destruct (resume i at_addresses (init_addresses r snap) (effects s))
      as [[es ws] errs]. simpl in *. subst ws. auto.
  - rewrite emit_not_listening; [simpl; auto |].
    eapply Forall_impl; [| exact H]. now intros e [Hl _].
Qed.

Lemma quiet_bridge_run (bs : list BridgeEvent) :
  forall s,
    Forall quiet (effects s) ->
    writes (run (map Bridge bs) s) = writes s
    /\ hooks (run (map Bridge bs) s) = hooks s.
Proof.
  induction bs as [| b bs IH]; intros s H; [auto |].
  destruct (quiet_bridge_step b s H) as (Hq & Hw & Hh).
  destruct (IH (bridge_step b s) Hq) as [Hw' Hh'].
  simpl. split; congruence.
Qed.

(** C2. Whatever happened between the mount and the unmount (so also when
    no initialization query has settled yet), nothing the bridge does after
    the unmount (a query settling with a value or an error, an event) makes
    the store call a setter: the log of setter calls and the state are those
    left by the unmount. *)
Theorem no_write_after_unmount (window : bool) (ls : list Label)
    (bs : list BridgeEvent) :
  let s := step Unmount (run ls (mount window)) in
  writes (run (map Bridge bs) s) = writes s
  /\ hooks (run (map Bridge bs) s) = hooks s.
Proof.
  intros s. apply quiet_bridge_run. apply unmounted_quiet.
  apply wellFormed_run, wellFormed_mount.
Qed.

(** The liveness check is what discards a pending result: the same query
    results write the state while the store is mounted, and write nothing
    after the unmount. *)
Lemma pending_results_example :
  let results := [ChainIdSettled 0 (Normal 4201);
                  AddressesSettled 0 (Normal ["0xA"]) ["0xB"]] in
  List.length (writes (run (map Bridge results) (mount true))) = 4%nat
  /\ writes (run (map Bridge results) (step Unmount (mount true))) = [].
Proof. split; reflexivity. Qed.

End GridProperties.

(** * Further properties *)

(** ** The donation form: validation and submission *)

Section DonateFurther.
Import JS Donate.

Variable toString_other : number -> string.
Variable parseFloat : string -> number.
Variable parseUnits : string -> Z -> Completion Z.
Variable sendTransaction : Donate.TxRequest -> Completion string.

Local Abbreviation validate := (validateAmount toString_other).
Local Abbreviation send :=
  (sendToken toString_other parseUnits sendTransaction).

(** Comparing the other way round gives the opposite result. *)
Lemma SFcompare_antisym (x y : number) :
  SFcompare y x = option_map CompOpp (SFcompare x y).
Proof.
  destruct x as [sx | sx | | sx mx ex], y as [sy | sy | | sy my ey];
    try (destruct sx); try (destruct sy); try reflexivity;
    cbn [SFcompare option_map]; f_equal;
    rewrite (Z.compare_antisym ex ey);
    destruct (Z.compare ex ey) eqn:E; cbn [CompOpp]; try reflexivity;
    change (Pos.compare_cont Eq my mx) with (Pos.compare my mx);
    change (Pos.compare_cont Eq mx my) with (Pos.compare mx my);
    rewrite (Pos.compare_antisym mx my);
    destruct (Pos.compare mx my); reflexivity.
Qed.

(** For numbers other than NaN, [x < y] fails exactly when [y <= x]. *)
Lemma lt_false_le (x y : number) :
  x <> NaN -> y <> NaN -> (lt x y = false <-> le y x = true).
Proof.
  intros Hx Hy. unfold lt, le, SFltb, SFleb.
  rewrite (SFcompare_antisym x y).
  destruct (SFcompare x y) as [[ | | ] |] eqn:E; cbn [option_map CompOpp];
    try (split; intros; (reflexivity || discriminate)).
  exfalso. unfold NaN in *.
  destruct x as [sx | sx | | sx mx ex], y as [sy | sy | | sy my ey];
    try discriminate E; congruence.
Qed.

Lemma bounds_not_NaN : minAmount <> NaN /\ maxAmount <> NaN.
Proof.
  rewrite minAmount_value, maxAmount_value. split; discriminate.
Qed.

(** X1. The validator clears the error exactly for NaN and for the amounts
    between 1 and 1000, bounds included; every other amount leaves a
    message. *)
Theorem validateAmount_clears_error_iff (v : number) (st : State) :
  error (validate v st) = ""
  <-> v = NaN \/ (le minAmount v = true /\ le v maxAmount = true).
Proof.
  rewrite validateAmount_error.
  destruct bounds_not_NaN as [Hmin Hmax].
  assert (Hnan : v = NaN \/ v <> NaN)
    by (destruct v; (now left) || (right; discriminate)).
  destruct Hnan as [-> | Hv].
  - split; [now left | reflexivity].
  - pose proof (lt_false_le v minAmount Hv Hmin) as H1.
    pose proof (lt_false_le maxAmount v Hmax Hv) as H2.
    unfold gt. fold (lt maxAmount v).
    destruct (lt v minAmount); [| destruct (lt maxAmount v)].
    + split; [discriminate |].
      intros [-> | [H _]]; [congruence |].
      apply H1 in H. discriminate.
    + split; [discriminate |].
      intros [-> | [_ H]]; [congruence |].
      apply H2 in H. discriminate.
    + split; [| reflexivity].
      intros _. right. split; [now apply H1 | now apply H2].
Qed.

(** X2. Validation is a function of the amount alone: validating [v] after
    any earlier validation gives what validating [v] first gives, so the
    effect that validates the stored amount again reaches a fixed point. *)
Theorem validateAmount_last_wins (v v' : number) (st st' : State) :
  validate v (validate v' st) = validate v st'
  /\ revalidate toString_other (validate v st) = validate v st.
Proof.
  unfold revalidate.
  rewrite validateAmount_amount, !validateAmount_eq. split; reflexivity.
Qed.

(** X3. [sendToken] never calls [client.sendTransaction] more than once, and
    it only fails with the error of [parseUnits] (no call made) or with the
    error of the one call it made. *)
Theorem sendToken_at_most_once (sc : Scope) (st : State) :
  (List.length (snd (send sc st)) <= 1)%nat
  /\ (forall e,
        fst (send sc st) = Throw e ->
        (parseUnits (toString toString_other (amount st)) 18 = Throw e
         /\ snd (send sc st) = [])
        \/ (exists tx, snd (send sc st) = [tx] /\ sendTransaction tx = Throw e)).
Proof.
  unfold sendToken.
  destruct (client sc); [| split; [simpl; lia | discriminate]].
  destruct (negb (walletConnected sc) || negb (truthy (amount st)));
    [split; [simpl; lia | discriminate] |].
  destruct (parseUnits _ _) as [v | e0] eqn:Hp.
  - destruct (sendTransaction _) as [h | e0] eqn:Hs;
      cbn [fst snd List.length];
      (split; [lia |]); intros e He; [discriminate |].
    right. eexists. split; [reflexivity |]. congruence.
  - cbn [fst snd List.length]. split; [lia |].
    intros e He. left. split; congruence.
Qed.

(** X4. The validation message does not hold a transfer back: an amount the
    validator rejects (below 1 or above 1000, and neither 0 nor NaN) is
    stored with its message, and [sendToken] submits it all the same. *)
Theorem rejected_amount_is_submitted
    (text : string) (sc : Scope) (st : State) (v : Z) :
  client sc <> None ->
  walletConnected sc = true ->
  truthy (parseFloat text) = true ->
  lt (parseFloat text) minAmount || gt (parseFloat text) maxAmount = true ->
  parseUnits (toString toString_other (parseFloat text)) 18 = Normal v ->
  let st' := handleOnInput toString_other parseFloat text st in
  error st' <> ""
  /\ snd (send sc st')
     = [ {| account := nth_error (accounts sc) 0;
            to := recipientAddress sc;
            value := v |} ].
Proof.
  intros Hc Hw Ht Hr Hp st'. subst st'. unfold handleOnInput. split.
  - rewrite validateAmount_error.
    destruct (lt (parseFloat text) minAmount); [discriminate |].
    simpl in Hr. rewrite Hr. discriminate.
  - unfold sendToken. rewrite validateAmount_amount.
    destruct (client sc); [| congruence].
    rewrite Hw, Ht, Hp. simpl.
    destruct (sendTransaction _); reflexivity.
Qed.

End DonateFurther.

(** Witness of X4: 1500 typed into the form of a connected scope. *)
Lemma rejected_amount_is_submitted_witness :
  let st' := Donate.handleOnInput Donate.Sample.toString_other JS.parseFloat
               "1500" Donate.initial in
  Donate.error st' <> ""
  /\ snd (Donate.sendToken Donate.Sample.toString_other
            Donate.Sample.parseUnits Donate.Sample.sendTransaction
            Donate.Sample.connected st')
     = [ {| Donate.account := Some "0x1111";
            Donate.to := Some "0x2222";
            Donate.value := 1500 * 10 ^ 18 |} ].
Proof.
  apply (rejected_amount_is_submitted Donate.Sample.toString_other
           JS.parseFloat Donate.Sample.parseUnits
           Donate.Sample.sendTransaction "1500" Donate.Sample.connected
           Donate.initial (1500 * 10 ^ 18));
    [discriminate | reflexivity | vm_compute; reflexivity
    | vm_compute; reflexivity | vm_compute; reflexivity].
Defined.

(** ** The profile card: failures and url rewriting *)

Section LuksoProfileFurther.
Import JS LuksoProfile.

Lemma startsWith_split (pat s : string) :
  startsWith pat s = true -> s = pat ++ drop (String.length pat) s.
Proof.
  revert s. induction pat as [| c pat IH]; intros s H; [reflexivity |].
  destruct s as [| d s]; [discriminate |].
  simpl in H. apply andb_true_iff in H. destruct H as [Hc Hs].
  apply Ascii.eqb_eq in Hc. subst d. simpl. f_equal. now apply IH.
Qed.

(** A string the pattern does not occur in is left as it is. *)
Lemma replace_absent (pat rep s : string) :
  includes pat s = false -> replace pat rep s = s.
Proof.
  induction s as [| c s IH]; intros H; simpl in H;
    apply orb_false_iff in H; destruct H as [H1 H2].
  - simpl. now rewrite H1.
  - cbn [replace]. rewrite H1. f_equal. now apply IH.
Qed.

(** The gateway prefix holds no [ipfs://]: the rewrite skips it. *)
Lemma replace_gateway_prefix (s : string) :
  replace "ipfs://" IPFS_GATEWAY (IPFS_GATEWAY ++ s)
  = IPFS_GATEWAY ++ replace "ipfs://" IPFS_GATEWAY s.
Proof. reflexivity. Qed.



Lemma append_assoc (x y z : string) : (x ++ y) ++ z = x ++ y ++ z.
Proof. induction x as [| c x IH]; simpl; congruence. Qed.

(** A prefix of [w] is a prefix of [w] extended. *)
Lemma startsWith_extend (pat w z : string) :
  startsWith pat w = true -> startsWith pat (w ++ z) = true.
Proof.
  revert w. induction pat as [| c pat IH]; intros w H; [reflexivity |].
  destruct w as [| d w]; [discriminate |].
  simpl in *. apply andb_true_iff in H. destruct H as [Hc Hw].
  now rewrite Hc, (IH w Hw).
Qed.

(** X7. A url that holds [ipfs://] anywhere has its first occurrence
    replaced by the gateway prefix (no occurrence starts in the text before
    it), the text before and after it kept. *)
Theorem replace_one_occurrence (u : string) :
  includes "ipfs://" u = true ->
  exists before after,
    u = before ++ "ipfs://" ++ after
    /\ includes "ipfs://" (before ++ "ipfs:/") = false
    /\ replace "ipfs://" IPFS_GATEWAY u = before ++ IPFS_GATEWAY ++ after.
Proof.
  induction u as [| c u IH]; intros H.
  - discriminate.
  - cbn [includes] in H. cbn [replace].
    destruct (startsWith "ipfs://" (String c u)) eqn:E.
    + exists "", (drop (String.length "ipfs://") (String c u)).
      split; [now apply startsWith_split | split; reflexivity].
    + cbn [orb] in H. destruct (IH H) as (b & a & Hu & Hb & Hr).
      exists (String c b), a. split; [| split].
      * change (String c b ++ "ipfs://" ++ a)
          with (String c (b ++ "ipfs://" ++ a)).
        now rewrite <- Hu.
      * change (String c b ++ "ipfs:/") with (String c (b ++ "ipfs:/")).
        cbn [includes]. rewrite Hb, orb_false_r.
        destruct (startsWith "ipfs://" (String c (b ++ "ipfs:/"))) eqn:E';
          [| reflexivity].
        apply (startsWith_extend _ _ ("/" ++ a)) in E'.
        change (String c (b ++ "ipfs:/") ++ "/" ++ a)
          with (String c ((b ++ "ipfs:/") ++ "/" ++ a)) in E'.
        rewrite append_assoc in E'.
        change ("ipfs:/" ++ "/" ++ a) with ("ipfs://" ++ a) in E'.
        rewrite <- Hu in E'. congruence.
      * rewrite Hr. reflexivity.
Qed.

(** X8. Rewriting a url of the form [ipfs://<cid>] a second time changes
    nothing, when [<cid>] itself holds no [ipfs://]. *)
Theorem rewrite_idempotent (cid : string) :
  includes "ipfs://" cid = false ->
  let rewrite := replace "ipfs://" IPFS_GATEWAY in
  rewrite (rewrite ("ipfs://" ++ cid)) = rewrite ("ipfs://" ++ cid).
Proof.
  intros H rw. subst rw.
  rewrite (replace_prefix "ipfs://" IPFS_GATEWAY cid).
  rewrite replace_gateway_prefix. now rewrite (replace_absent _ _ _ H).
Qed.

(** X9. Only the first entry of [profileImage] and of [backgroundImage] is
    read: the entries after it do not change the outcome. *)
Theorem later_images_ignored
    (address : string) (n : option string) (avatar background : Image)
    (avatars backgrounds : list Image) (st : State) :
  fetchProfileImage address
    (Normal (Some (Obj (Some (Some
       {| name := n; profileImage := Some (avatar :: avatars);
          backgroundImage := Some (background :: backgrounds) |}))))) st
  = fetchProfileImage address
      (Normal (Some (Obj (Some (Some
         {| name := n; profileImage := Some [avatar];
            backgroundImage := Some [background] |}))))) st.
Proof. reflexivity. Qed.

End LuksoProfileFurther.


(** Witness of X7: an [ipfs://] inside a longer url. *)
Lemma replace_one_occurrence_witness :
  exists before after,
    "see ipfs://abc" = before ++ "ipfs://" ++ after
    /\ JS.includes "ipfs://" (before ++ "ipfs:/") = false
    /\ JS.replace "ipfs://" LuksoProfile.IPFS_GATEWAY "see ipfs://abc"
       = before ++ LuksoProfile.IPFS_GATEWAY ++ after.
Proof. apply (replace_one_occurrence "see ipfs://abc"). reflexivity. Defined.

(** Witness of X8: the content id [abc123]. *)
Lemma rewrite_idempotent_witness :
  JS.replace "ipfs://" LuksoProfile.IPFS_GATEWAY
    (JS.replace "ipfs://" LuksoProfile.IPFS_GATEWAY "ipfs://abc123")
  = JS.replace "ipfs://" LuksoProfile.IPFS_GATEWAY "ipfs://abc123".
Proof. apply (rewrite_idempotent "abc123"). reflexivity. Defined.

(** ** The connection store: queries, listeners and setters *)

Section GridFurther.
Import JS Grid.

(** What resuming a run gives out: the calls of its continuation. *)
Lemma resume_outputs (ready : Effect -> bool)
    (k : Effect -> Effect * list Write * list Exn) (es : list Effect) :
  forall i,
    snd (fst (resume i ready k es))
    = match nth_error es i with
      | Some e => if ready e then snd (fst (k e)) else []
      | None => []
      end
    /\ snd (resume i ready k es)
       = match nth_error es i with
         | Some e => if ready e then snd (k e) else []
         | None => []
         end.
Proof.
  induction es as [| e es IH]; intros i; [now destruct i |].
  destruct i as [| i]; simpl.
  - destruct (ready e); [| now split].
    now destruct (k e) as [[e' ws] errs].
  - destruct (IH i) as [H1 H2].
    now destruct (resume i ready k es) as [[es' ws] errs].
Qed.

(** Resuming a run changes at most its [pc]. *)
Lemma resume_closure (ready : Effect -> bool)
    (k : Effect -> Effect * list Write * list Exn) (es : list Effect) :
  (forall e, closure (fst (fst (k e))) = closure e) ->
  forall i, map closure (fst (fst (resume i ready k es))) = map closure es.
Proof.
  intros Hk. induction es as [| e es IH]; intros i; [now destruct i |].
  destruct i as [| i]; simpl.
  - destruct (ready e); [| reflexivity].
    specialize (Hk e). destruct (k e) as [[e' ws] errs]. simpl in *.
    now rewrite Hk.
  - specialize (IH i).
    destruct (resume i ready k es) as [[es' ws] errs]. simpl in *.
    now rewrite IH.
Qed.

Lemma init_chainId_closure (r : Completion Z) (e : Effect) :
  closure (fst (fst (init_chainId r e))) = closure e.
Proof.
  unfold init_chainId. destruct r; [destruct (negb (mounted e)) |];
    reflexivity.
Qed.

Lemma init_addresses_closure (r : Completion (list Address))
    (snapshot : list Address) (e : Effect) :
  closure (fst (fst (init_addresses r snapshot e))) = closure e.
Proof.
  unfold init_addresses. destruct r; [destruct (negb (mounted e)) |];
    reflexivity.
Qed.

(** The runs of the effect after a bridge event: the same closures. *)
Lemma bridge_step_closure (b : BridgeEvent) (s : Store) :
  map closure (effects (bridge_step b s)) = map closure (effects s).
Proof.
  destruct b as [i r | i r snap | ev]; simpl; [| | reflexivity].
  - pose proof (resume_closure at_chainId _ (effects s)
                  (init_chainId_closure r) i) as H.
    now destruct (resume i at_chainId (init_chainId r) (effects s))
      as [[es ws] errs].
  - pose proof (resume_closure at_addresses _ (effects s)
                  (init_addresses_closure r snap) i) as H.
    now destruct (resume i at_addresses (init_addresses r snap) (effects s))
      as [[es ws] errs].
Qed.

Lemma bridge_step_hooks (b : BridgeEvent) (s : Store) :
  hooks (bridge_step b s) = fold_left apply_write (bridge_writes b s) (hooks s)
  /\ writes (bridge_step b s) = (rev (bridge_writes b s) ++ writes s)%list.
Proof.
  destruct b as [i r | i r snap | ev]; simpl; [| | now split].
  - now destruct (resume i at_chainId (init_chainId r) (effects s))
      as [[es ws] errs].
  - now destruct (resume i at_addresses (init_addresses r snap) (effects s))
      as [[es ws] errs].
Qed.

Lemma bridge_writes_connection (b : BridgeEvent) (s : Store) :
  forallb connectionWrite (bridge_writes b s) = true.
Proof.
  destruct b as [i r | i r snap | ev]; simpl.
  - rewrite (proj1 (resume_outputs at_chainId (init_chainId r) (effects s) i)).
    destruct (nth_error (effects s) i) as [e |]; [| reflexivity].
    destruct (at_chainId e); [| reflexivity].
    unfold init_chainId.
    destruct r; [destruct (negb (mounted e)) |]; reflexivity.
  - rewrite (proj1 (resume_outputs at_addresses (init_addresses r snap)
                      (effects s) i)).
    destruct (nth_error (effects s) i) as [e |]; [| reflexivity].
    destruct (at_addresses e); [| reflexivity].
    unfold init_addresses.
    destruct r; [destruct (negb (mounted e)) |]; reflexivity.
  - unfold emit. induction (rev (effects s)) as [| e es IH]; [reflexivity |].
    simpl. rewrite forallb_app, IH, andb_true_r.
    unfold handler. destruct (listening e); [| reflexivity].
    destruct ev; reflexivity.
Qed.

Lemma connection_writes_frame (ws : list Write) :
  forallb connectionWrite ws = true ->
  forall st,
    selectedAddress (fold_left apply_write ws st) = selectedAddress st
    /\ isSearching (fold_left apply_write ws st) = isSearching st.
Proof.
  induction ws as [| w ws IH]; intros H st; [now split |].
  simpl in H. apply andb_true_iff in H. destruct H as [Hw Hws].
  simpl. destruct (IH Hws (apply_write st w)) as [H1 H2].
  rewrite H1, H2. destruct w; try discriminate; now split.
Qed.

(** X10. Nothing the bridge does (a query settling, an event) changes
    [selectedAddress] or [isSearching], in any store: [init] and the
    listeners only call the setters of the four connection fields. *)
Theorem bridge_keeps_selection (b : BridgeEvent) (s : Store) :
  selectedAddress (hooks (bridge_step b s)) = selectedAddress (hooks s)
  /\ isSearching (hooks (bridge_step b s)) = isSearching (hooks s)
  /\ forallb connectionWrite (bridge_writes b s) = true.
Proof.
  rewrite (proj1 (bridge_step_hooks b s)).
  pose proof (bridge_writes_connection b s) as H.
  destruct (connection_writes_frame _ H (hooks s)) as [H1 H2].
  now repeat split.
Qed.

(** X11. When [getAddresses] settles with a value for a run of the effect
    that is still mounted, [init] replaces [accounts] by the result and
    [contextAccounts] by the provider's snapshot, sets [walletConnected] from
    these two fresh lists, leaves the other fields alone and logs
    nothing. *)
Theorem init_publishes_accounts
    (i : nat) (e : Effect) (l snapshot : list Address) (s : Store) :
  nth_error (effects s) i = Some e ->
  mounted e = true ->
  pc e = AwaitAddresses ->
  let s' := step (Bridge (AddressesSettled i (Normal l) snapshot)) s in
  accounts (hooks s') = l
  /\ contextAccounts (hooks s') = snapshot
  /\ walletConnected (hooks s') = nonEmpty l && nonEmpty snapshot
  /\ walletConnected (hooks s') = bothNonEmpty (hooks s')
  /\ chainId (hooks s') = chainId (hooks s)
  /\ selectedAddress (hooks s') = selectedAddress (hooks s)
  /\ isSearching (hooks s') = isSearching (hooks s)
  /\ console s' = console s.
Proof.
  intros Hn Hm Hpc s'. subst s'. cbn [step].
  pose proof (bridge_step_hooks (AddressesSettled i (Normal l) snapshot) s)
    as [Hh _].
  assert (Hc : console (bridge_step (AddressesSettled i (Normal l) snapshot) s)
               = console s).
  { cbn [bridge_step].
    pose proof (proj2 (resume_outputs at_addresses
                         (init_addresses (Normal l) snapshot) (effects s) i))
      as He.
    assert (R : (if at_addresses e
                 then snd (init_addresses (Normal l) snapshot e) else [])
                = [])
      by (unfold at_addresses, init_addresses; now rewrite Hpc, Hm).
    rewrite Hn, R in He.
    destruct (resume i at_addresses (init_addresses (Normal l) snapshot)
                (effects s)) as [[es ws] errs].
    simpl in *. now subst errs. }
  rewrite Hc, Hh. cbn [bridge_writes].
  rewrite (proj1 (resume_outputs at_addresses
                    (init_addresses (Normal l) snapshot) (effects s) i)).
  rewrite Hn. unfold at_addresses, init_addresses. rewrite Hpc, Hm.
  unfold bothNonEmpty. simpl. now repeat split.
Qed.

(** X12. A query of [init] that fails writes nothing: the state and the
    log of setter calls stay as they were, and the error is logged once
    when the query was pending (not at all otherwise). *)
Theorem failed_query_only_logs
    (i : nat) (err : Exn) (snapshot : list Address) (s : Store) :
  let s1 := step (Bridge (ChainIdSettled i (Throw err))) s in
  let s2 := step (Bridge (AddressesSettled i (Throw err) snapshot)) s in
  hooks s1 = hooks s /\ writes s1 = writes s
  /\ console s1 = (if pending at_chainId i s then err :: console s
                   else console s)
  /\ hooks s2 = hooks s /\ writes s2 = writes s
  /\ console s2 = (if pending at_addresses i s then err :: console s
                   else console s).
Proof.
  intros s1 s2. subst s1 s2. cbn [step bridge_step]. unfold pending.
  pose proof (resume_outputs at_chainId (init_chainId (Throw err))
                (effects s) i) as [W1 E1].
  pose proof (resume_outputs at_addresses
                (init_addresses (Throw err) snapshot) (effects s) i)
    as [W2 E2].
  destruct (resume i at_chainId (init_chainId (Throw err)) (effects s))
    as [[es1 ws1] errs1].
  destruct (resume i at_addresses (init_addresses (Throw err) snapshot)
              (effects s)) as [[es2 ws2] errs2].
  simpl in W1, E1, W2, E2. subst ws1 errs1 ws2 errs2.
  destruct (nth_error (effects s) i) as [e |]; [| now repeat split].
  destruct (at_chainId e), (at_addresses e); now repeat split.
Qed.

(** X13. However the store got where it is, at most one run of the effect
    has its listeners registered, and none has once the store is
    unmounted. *)
Theorem at_most_one_listener (window : bool) (ls : list Label) :
  let s := run ls (mount window) in
  (List.length (filter listening (effects s)) <= 1)%nat
  /\ filter listening (effects (step Unmount s)) = [].
Proof.
  intros s.
  assert (Hq : forall es, Forall quiet es -> filter listening es = []).
  { intros es H. induction H as [| e es [He _] _ IH]; [reflexivity |].
    simpl. now rewrite He. }
  pose proof (wellFormed_run ls _ (wellFormed_mount window)) as Hwf.
  fold s in Hwf. split.
  - destruct Hwf as [Htl _]. destruct (effects s) as [| e es]; [simpl; lia |].
    simpl in *. rewrite (Hq es Htl). destruct (listening e); simpl; lia.
  - apply Hq. now apply unmounted_quiet.
Qed.

(** *** Listeners after a commit *)

Lemma bridge_step_frame (b : BridgeEvent) (s : Store) :
  provider (bridge_step b s) = provider s
  /\ deps (bridge_step b s) = deps s
  /\ alive (bridge_step b s) = alive s.
Proof.
  destruct b as [i r | i r snap | ev]; simpl; [| | now repeat split].
  - now destruct (resume i at_chainId (init_chainId r) (effects s))
      as [[es ws] errs].
  - now destruct (resume i at_addresses (init_addresses r snap) (effects s))
      as [[es ws] errs].
Qed.

Lemma provider_step (l : Label) (s : Store) : provider (step l s) = provider s.
Proof.
  destruct l as [b | | | a | b]; simpl.
  - apply bridge_step_frame.
  - now destruct (alive s && deps_changed s).
  - now destruct (alive s).
  - now destruct (alive s).
  - now destruct (alive s).
Qed.

Lemma provider_run (ls : list Label) :
  forall s, provider (run ls s) = provider s.
Proof.
  induction ls as [| l ls IH]; intros s; [reflexivity |].
  simpl. fold (run ls (step l s)). now rewrite IH, provider_step.
Qed.

Lemma upToDate_mount (window : bool) : upToDate (mount window).
Proof. destruct window; split; reflexivity. Qed.

Lemma upToDate_step (l : Label) (s : Store) :
  upToDate s -> upToDate (step l s).
Proof.
  unfold upToDate. intros H. destruct l as [b | | | a | b]; cbn [step].
  - pose proof (bridge_step_closure b s) as Hc.
    destruct (bridge_step_frame b s) as (Hp & Hd & Ha).
    rewrite Hp, Hd, Ha.
    destruct (effects s) as [| e es]; [contradiction |].
    destruct (effects (bridge_step b s)) as [| e' es']; [discriminate |].
    cbn [map closure] in Hc. injection Hc as _ Hsa Hsc Hl _.
    now rewrite Hsa, Hsc, Hl.
  - destruct (alive s && deps_changed s); [| exact H].
    simpl. now split.
  - case (alive s); [| exact H]. simpl. unfold run_cleanup.
    destruct (effects s) as [| e es]; [contradiction |].
    destruct H as [Hd _].
    destruct (isSome (provider s)); simpl; (split; [exact Hd | discriminate]).
  - case (alive s); exact H.
  - case (alive s); exact H.
Qed.

Lemma upToDate_run (ls : list Label) :
  forall s, upToDate s -> upToDate (run ls s).
Proof.
  induction ls as [| l ls IH]; intros s H; [exact H |].
  apply (IH (step l s)). now apply upToDate_step.
Qed.

(** After a commit the dependency lengths are those of the state. *)
Lemma commit_deps (s : Store) :
  alive (step Commit s) = true ->
  deps (step Commit s) = lengths (hooks (step Commit s)).
Proof.
  cbn [step]. destruct (alive s) eqn:A; cbn [andb].
  - destruct (deps_changed s) eqn:D; [reflexivity |].
    intros _. unfold deps_changed in D. apply negb_false_iff in D.
    apply andb_true_iff in D. destruct D as [D1 D2].
    apply Z.eqb_eq in D1, D2.
    destruct (deps s), (lengths (hooks s)). simpl in *. congruence.
  - congruence.
Qed.

(** Among quiet older runs, an event reaches the latest run only. *)
Lemma emit_latest (ev : ProviderEvent) (e : Effect) (es : list Effect) :
  Forall quiet es -> emit ev (e :: es) = handler ev e.
Proof.
  intros H. unfold emit. simpl. rewrite flat_map_app. simpl.
  rewrite app_nil_r.
  fold (emit ev es). rewrite emit_not_listening; [reflexivity |].
  eapply Forall_impl; [| exact H]. now intros a [Hl _].
Qed.

(** X14. An account event delivered right after React has committed (and
    re-run the effect where its dependencies changed) is handled by
    listeners that saw lists as long as the current ones: the list is
    replaced and [walletConnected] is the flag of the state the event
    leaves. *)
Theorem committed_listeners_fresh (ls : list Label) (l : list Address) :
  let s := step Commit (run ls (mount true)) in
  alive s = true ->
  let s1 := step (Bridge (Emit (AccountsChanged l))) s in
  let s2 := step (Bridge (Emit (ContextAccountsChanged l))) s in
  accounts (hooks s1) = l
  /\ walletConnected (hooks s1) = bothNonEmpty (hooks s1)
  /\ contextAccounts (hooks s2) = l
  /\ walletConnected (hooks s2) = bothNonEmpty (hooks s2).
Proof.
  intros s Ha s1 s2.
  assert (Hwf : wellFormed s)
    by (apply wellFormed_step, wellFormed_run, wellFormed_mount).
  assert (Hup : upToDate s)
    by (apply upToDate_step, upToDate_run, upToDate_mount).
  assert (Hp : provider s = Some UPProvider)
    by (unfold s; now rewrite provider_step, provider_run).
  pose proof (commit_deps _ Ha) as Hd. fold s in Hd.
  unfold upToDate in Hup. destruct Hwf as [Htl _].
  subst s1 s2. cbn [step bridge_step perform hooks].
  destruct (effects s) as [| e es]; [contradiction |].
  destruct Hup as [Hseen Hl]. specialize (Hl Ha). rewrite Hp in Hl.
  simpl in Htl, Hl. rewrite !(emit_latest _ e es Htl).
  unfold handler. rewrite Hl.
  assert (Hsync : inSync e (hooks s)).
  { rewrite Hd in Hseen. unfold lengths in Hseen.
    injection Hseen as H1 H2. unfold inSync, nonEmpty. now rewrite H1, H2. }
  destruct (listeners_fresh_when_inSync e (hooks s) l Hsync) as [H1 H2].
  now repeat split.
Qed.

(** *** The consumer's setters *)

Lemma alive_commit (s : Store) : alive (step Commit s) = alive s.
Proof.
  cbn [step]. case_eq (alive s); intros A; cbn [andb]; [| exact A].
  now destruct (deps_changed s).
Qed.

(** A call of a consumer's setter, made before the commit or after it. *)
Lemma consumer_write_commit (w : Write) (s : Store) :
  connectionWrite w = false ->
  step Commit (perform [w] [] (effects s) s)
  = perform [w] [] (effects (step Commit s)) (step Commit s).
Proof.
  intros Hw.
  assert (Hd : deps_changed (perform [w] [] (effects s) s) = deps_changed s)
    by (destruct w; (discriminate || reflexivity)).
  cbn [step]. rewrite Hd.
  change (alive (perform [w] [] (effects s) s)) with (alive s).
  destruct (alive s && deps_changed s); [| reflexivity].
  destruct w; (discriminate || reflexivity).
Qed.

(** X15. [setSelectedAddress] and [setIsSearching] store their argument
    (while the component is mounted) and are independent of the commit:
    calling one before or after React commits gives the same store, so they
    never make the effect run again. *)
Theorem consumer_setters_commute_with_commit
    (a : option Address) (b : bool) (s : Store) :
  selectedAddress (hooks (step (CallSetSelectedAddress a) s))
  = (if alive s then a else selectedAddress (hooks s))
  /\ isSearching (hooks (step (CallSetIsSearching b) s))
     = (if alive s then b else isSearching (hooks s))
  /\ step Commit (step (CallSetSelectedAddress a) s)
     = step (CallSetSelectedAddress a) (step Commit s)
  /\ step Commit (step (CallSetIsSearching b) s)
     = step (CallSetIsSearching b) (step Commit s).
Proof.
  pose proof (alive_commit s) as Hc.
  assert (Hstep : forall w l s0,
             (l = CallSetSelectedAddress a /\ w = SetSelectedAddress a)
             \/ (l = CallSetIsSearching b /\ w = SetIsSearching b) ->
             step l s0
             = if alive s0 then perform [w] [] (effects s0) s0 else s0)
    by (intros w l s0 [[-> ->] | [-> ->]]; reflexivity).
  split; [| split; [| split]].
  - cbn [step]. now destruct (alive s).
  - cbn [step]. now destruct (alive s).
  - rewrite (Hstep (SetSelectedAddress a) _ s),
      (Hstep (SetSelectedAddress a) _ (step Commit s)), Hc by auto.
    destruct (alive s) eqn:A; [| cbn [step]; now rewrite A].
    now apply consumer_write_commit.
  - rewrite (Hstep (SetIsSearching b) _ s),
      (Hstep (SetIsSearching b) _ (step Commit s)), Hc by auto.
    destruct (alive s) eqn:A; [| cbn [step]; now rewrite A].
    now apply consumer_write_commit.
Qed.

(** X16. In a browser, once the two queries of the first [init] have
    settled with values, the state holds the chain id, the accounts, the
    provider's snapshot and the flag computed from the two lists, with
    nothing logged; at the next commit the effect runs again (a second
    [init] is started and the first run is cleaned up) exactly when one of
    the two lists is non-empty. *)
Theorem first_init_then_commit (n : Z) (l snapshot : list Address) :
  let s := run [Bridge (ChainIdSettled 0 (Normal n));
                Bridge (AddressesSettled 0 (Normal l) snapshot)]
             (mount true) in
  hooks s = {| chainId := n; accounts := l; contextAccounts := snapshot;
               walletConnected := nonEmpty l && nonEmpty snapshot;
               selectedAddress := None; isSearching := false |}
  /\ console s = []
  /\ map pc (effects s) = [InitReturned]
  /\ map (fun e => (pc e, mounted e, listening e)) (effects (step Commit s))
     = if nonEmpty l || nonEmpty snapshot
       then [(AwaitChainId, true, true); (InitReturned, false, false)]
       else [(InitReturned, true, true)].
Proof.
  intros s. subst s. repeat split.
  destruct l, snapshot; reflexivity.
Qed.

End GridFurther.

(** Witness of X11: the addresses arrive after the chain id, at first
    mount. *)
Lemma init_publishes_accounts_witness :
  let s := Grid.step (Grid.Bridge (Grid.ChainIdSettled 0 (JS.Normal 4201)))
             (Grid.mount true) in
  let s' := Grid.step
              (Grid.Bridge (Grid.AddressesSettled 0 (JS.Normal ["0xA"]) ["0xB"]))
              s in
  Grid.accounts (Grid.hooks s') = ["0xA"]
  /\ Grid.contextAccounts (Grid.hooks s') = ["0xB"]
  /\ Grid.walletConnected (Grid.hooks s') = true.
Proof.
  intros s s'.
  pose proof (init_publishes_accounts 0
                {| Grid.mounted := true; Grid.seen_accounts := [];
                   Grid.seen_contextAccounts := [];
                   Grid.pc := Grid.AwaitAddresses; Grid.listening := true |}
                ["0xA"] ["0xB"] s eq_refl eq_refl eq_refl)
    as (H1 & H2 & H3 & _).
  now repeat split.
Defined.

(** Witness of X14: the store right after the first commit. *)
Lemma committed_listeners_fresh_witness :
  let s := Grid.step Grid.Commit
             (Grid.run [Grid.Bridge (Grid.Emit (Grid.AccountsChanged ["0xA"]))]
                (Grid.mount true)) in
  let s2 := Grid.step
              (Grid.Bridge (Grid.Emit (Grid.ContextAccountsChanged ["0xB"]))) s in
  Grid.alive s = true
  /\ Grid.walletConnected (Grid.hooks s2) = Grid.bothNonEmpty (Grid.hooks s2)
  /\ Grid.bothNonEmpty (Grid.hooks s2) = true.
Proof.
  intros s s2. split; [reflexivity |]. split; [| reflexivity].
  apply (committed_listeners_fresh
           [Grid.Bridge (Grid.Emit (Grid.AccountsChanged ["0xA"]))] ["0xB"]
           eq_refl).
Defined.
